(** * Alerta forwarder plugin: loop marker, action gate and fan-out hooks

    Shallow embedding of [alerta/plugins/forwarder.py].  Python [str]
    values are [string]; the request headers are a finite map from header
    name to value; the destination table [FWD_DESTINATIONS] is a list of
    [(remote, auth, actions)] triples; the remote peers reached through
    [alertaclient.api.Client] are a state-passing black box.  A hook is a
    computation over that remote world which also yields its trace of
    [print], [LOG.warning] and client calls and may raise ForwardingLoop.
    The destination table is taken well-shaped (triples of a [str], a
    [dict] and a [list] of [str]), so that unpacking an entry and building
    the [Client] do not fail. *)

From Stdlib Require Import Ascii.
From stdpp Require Import gmap strings list.

(** ** Python string and list primitives used by the plugin *)

(** [str.startswith]: structural prefix test. *)
Fixpoint str_startswith (sub s : string) : bool :=
  match sub, s with
  | EmptyString, _ => true
  | String _ _, EmptyString => false
  | String a sub', String b s' => if decide (a = b) then str_startswith sub' s' else false
  end.

(** [sub in s] on two [str] values: [sub] occurs in [s] at some offset. *)
Fixpoint str_in (sub s : string) : bool :=
  str_startswith sub s ||
  match s with
  | EmptyString => false
  | String _ s' => str_in sub s'
  end.

(** [x in l] on a [list] of [str]: some element equals [x]. *)
Definition list_in (x : string) (l : list string) : bool :=
  bool_decide (x ∈ l).

(** Truthiness of an optional [str]: [None] and [''] are falsy. *)
Definition truthy (o : option string) : bool :=
  match o with
  | None => false
  | Some "" => false
  | Some _ => true
  end.

(** ['{}'.format(o)] for an optional [str]. *)
Definition fmt (o : option string) : string :=
  match o with
  | None => "None"
  | Some s => s
  end.

(** ** Request context *)

Definition X_LOOP_HEADER : string := "X-Alerta-Loop".

Record Request := mkRequest {
  headers : gmap string string;   (* request.headers *)
  environ : string                (* printed form of request.environ *)
}.

(** [request.headers.get(name)] and [request.headers.get(name, default)]. *)
Definition headers_get (req : Request) (name : string) : option string :=
  headers req !! name.

Definition headers_get_default (req : Request) (name dflt : string) : string :=
  default dflt (headers req !! name).

(** ** Alerts, destinations and the remote client *)

Record Alert := mkAlert {
  alert_id : string;                 (* alert.id *)
  get_body : gmap string string      (* alert.get_body() *)
}.

(** One entry of [FWD_DESTINATIONS]: [(remote, auth, actions)]. *)
Definition Destination : Type := string * gmap string string * list string.

Definition remote_of (d : Destination) : string := d.1.1.
Definition actions_of (d : Destination) : list string := d.2.

(** The three client methods the plugin calls. *)
Inductive Operation :=
| send_alert (body : gmap string string)
| action (id act text : string)
| delete_alert (id : string).

(** [Client(endpoint=remote, **auth, headers=headers).<operation>]. *)
Record RemoteCall := mkCall {
  endpoint : string;
  credentials : gmap string string;
  call_headers : gmap string string;
  operation : Operation
}.

(** A client method either returns or raises; [Throws e] carries
    [str(e)].  Of the value returned only the message is read:
    [send_alert] returns a triple whose third component is the message
    (a reply that does not unpack raises inside the [try] and is a
    [Throws]), [action] and [delete_alert] return the message itself.
    [None] is Python's [None]. *)
Inductive Reply :=
| Responds (message : option string)
| Throws (e : string).

(** Observable effects of a hook, in program order. *)
Inductive Effect :=
| Print (line : string)
| LogWarning (line : string)
| Remote (c : RemoteCall).

Inductive Exn :=
| ForwardingLoop (msg : string).

Inductive Result (A : Type) :=
| Returned (a : A)
| Raised (e : Exn).
Arguments Returned {A} a.
Arguments Raised {A} e.

(** ** The hook monad: remote world, effect trace, exceptions *)

Definition M (World A : Type) : Type := World → Result A * World * list Effect.

Definition value {World A} (r : Result A * World * list Effect) : Result A := r.1.1.
Definition world {World A} (r : Result A * World * list Effect) : World := r.1.2.
Definition trace {World A} (r : Result A * World * list Effect) : list Effect := r.2.

#[export] Instance M_ret {World} : MRet (M World) :=
  λ A a w, (Returned a, w, []).

#[export] Instance M_bind {World} : MBind (M World) :=
  λ A B k m w,
    match m w with
    | (Returned a, w1, t1) =>
        match k a w1 with
        | (r, w2, t2) => (r, w2, t1 ++ t2)
        end
    | (Raised e, w1, t1) => (Raised e, w1, t1)
    end.

Definition raise {World A} (e : Exn) : M World A :=
  λ w, (Raised e, w, []).

Definition print {World} (line : string) : M World unit :=
  λ w, (Returned tt, w, [Print line]).

Definition warning {World} (line : string) : M World unit :=
  λ w, (Returned tt, w, [LogWarning line]).

(** [for x in l: body(x)] *)
Fixpoint for_each {World A} (l : list A) (body : A → M World unit) : M World unit :=
  match l with
  | [] => mret tt
  | x :: l' => body x ;; for_each l' body
  end.

(** Remote calls recorded in a trace, in order. *)
Fixpoint calls (t : list Effect) : list RemoteCall :=
  match t with
  | [] => []
  | Remote c :: t' => c :: calls t'
  | _ :: t' => calls t'
  end.

Section Forwarder.

Context {World : Type}.

(** The network behind [alertaclient.api.Client]: performing a call
    moves the remote world and yields a reply. *)
Variable client : World → RemoteCall → World * Reply.

(** [alerta.utils.response.absolute_url], read off the request. *)
Variable absolute_url : Request → string.

Definition call (c : RemoteCall) : M World Reply :=
  λ w, let '(w', r) := client w c in (Returned r, w', [Remote c]).

Definition http_origin (req : Request) : string := absolute_url req.

Definition append_to_header (req : Request) (origin : string) : string :=
  let x_loop := headers_get req X_LOOP_HEADER in
  if negb (truthy x_loop) then origin else fmt x_loop +:+ "," +:+ origin.

Definition is_in_xloop (req : Request) (server : string) : bool :=
  let x_loop := headers_get_default req X_LOOP_HEADER "" in
  str_in server x_loop.

Definition pre_receive (req : Request) (alert : Alert) : M World Alert :=
  if is_in_xloop req (http_origin req) then
    raise (ForwardingLoop ("Alert " +:+ alert_id alert +:+ " already processed by "
                           +:+ http_origin req +:+ ". Ignoring."))
  else mret alert.

(** The permission tests of the three fan-out loops, written inline in
    the source as [not (... in actions or ...)]. *)
Definition post_receive_gate (actions : list string) : bool :=
  list_in "*" actions || list_in "fwd" actions.

Definition take_action_gate (act : string) (actions : list string) : bool :=
  list_in "*" actions || list_in "actions" actions || list_in act actions.

Definition delete_gate (actions : list string) : bool :=
  list_in "*" actions || list_in "actions" actions || list_in "delete" actions.

Definition post_receive_body (req : Request) (alert : Alert) (origin x_loop : string)
    (d : Destination) : M World unit :=
  let '(remote, auth, actions) := d in
  if str_in remote x_loop then
    print ("post-receive: " +:+ remote +:+ " is in xloop already. do not forward back to remote.")
  else if negb (post_receive_gate actions) then
    print "post-receive: alert forwarding not configured."
  else
    print ("post-receive: forward alert to " +:+ remote +:+ "...") ;;
    let headers := {[ X_LOOP_HEADER := append_to_header req origin ]} in
    r ← call (mkCall remote auth headers (send_alert (get_body alert))) ;
    match r with
    | Throws e =>
        warning ("Failed to forward alert to " +:+ remote +:+ " - " +:+ e)
    | Responds message =>
        (if truthy message then
           print ("post-receive: " +:+ alert_id alert +:+ " - " +:+ fmt message)
         else
           print ("post-receive: " +:+ alert_id alert +:+ " - success!")) ;;
        print "post-receive: sent!"
    end.

Definition post_receive (FWD_DESTINATIONS : list Destination) (req : Request)
    (alert : Alert) : M World Alert :=
  print "post-receive: forward alert to remotes..." ;;
  let origin := http_origin req in
  let x_loop := headers_get_default req X_LOOP_HEADER "" in
  for_each FWD_DESTINATIONS (post_receive_body req alert origin x_loop) ;;
  print "post-receive: continue to process alert..." ;;
  mret alert.

Definition status_change (req : Request) (alert : Alert) (status text : string)
    : M World unit :=
  mret tt.

Definition take_action_body (req : Request) (alert : Alert) (act text : string)
    (origin x_loop : string) (d : Destination) : M World unit :=
  let '(remote, auth, actions) := d in
  if str_in remote x_loop then
    print ("take-action: remote " +:+ remote +:+ " is in xloop. do not forward action.")
  else if negb (take_action_gate act actions) then
    print "take-action: alert action forwarding forbidden."
  else
    print ("take-action: trigger alert action " +:+ act +:+ " on remote " +:+ remote +:+ "...") ;;
    let headers := {[ X_LOOP_HEADER := append_to_header req origin ]} in
    r ← call (mkCall remote auth headers (action (alert_id alert) act text)) ;
    match r with
    | Throws e =>
        warning ("Failed to forward action to " +:+ remote +:+ " - " +:+ e)
    | Responds message =>
        print ("take-action: " +:+ alert_id alert +:+ " ; " +:+ act +:+ " - " +:+ fmt message) ;;
        print "take-action: sent!"
    end.

Definition take_action (FWD_DESTINATIONS : list Destination) (req : Request)
    (alert : Alert) (act text : string) : M World Alert :=
  print "take-action: start..." ;;
  let origin := http_origin req in
  let x_loop := headers_get_default req X_LOOP_HEADER "" in
  if str_in origin x_loop then
    print "take-action : loop detected." ;;
    raise (ForwardingLoop ("Alert " +:+ alert_id alert +:+ " action " +:+ act
                           +:+ " already processed by " +:+ origin +:+ "."))
  else
    print "take-action: forward alert action to remotes..." ;;
    for_each FWD_DESTINATIONS (take_action_body req alert act text origin x_loop) ;;
    print "take-action: continue to process action..." ;;
    mret alert.

Definition delete_body (req : Request) (alert : Alert) (origin x_loop : string)
    (d : Destination) : M World unit :=
  let '(remote, auth, actions) := d in
  if str_in remote x_loop then
    print ("delete: remote " +:+ remote +:+ " is in xloop. do not forward delete.")
  else if negb (delete_gate actions) then
    print "delete: alert delete forwarding forbidden."
  else
    print ("delete: trigger delete on remote " +:+ remote +:+ "...") ;;
    let headers := {[ X_LOOP_HEADER := append_to_header req origin ]} in
    r ← call (mkCall remote auth headers (delete_alert (alert_id alert))) ;
    match r with
    | Throws e =>
        warning ("Failed to forward delete to " +:+ remote +:+ " - " +:+ e)
    | Responds message =>
        print ("delete: " +:+ alert_id alert +:+ " ; " +:+ fmt message) ;;
        print "delete: sent!"
    end.

Definition delete (FWD_DESTINATIONS : list Destination) (req : Request)
    (alert : Alert) : M World bool :=
  print (environ req) ;;
  print "delete: start..." ;;
  let origin := http_origin req in
  let x_loop := headers_get_default req X_LOOP_HEADER "" in
  if str_in origin x_loop then
    print "delete : loop detected." ;;
    raise (ForwardingLoop ("Alert " +:+ alert_id alert +:+ " already deleted by "
                           +:+ origin +:+ "."))
  else
    print "delete: forward alert delete to remotes..." ;;
    for_each FWD_DESTINATIONS (delete_body req alert origin x_loop) ;;
    print "delete: continue to process delete..." ;;
    mret true.

End Forwarder.

(** ** The loop chain as the specification words it

    The specification describes the header as a comma-joined chain,
    decoded by splitting on commas and queried by element membership.
    These two definitions follow those words, for comparison with
    [is_in_xloop]. *)

(** [s.split(',')] *)
Fixpoint split_commas (s : string) : list string :=
  match s with
  | EmptyString => [""]
  | String c s' =>
      if decide (c = ","%char) then "" :: split_commas s'
      else match split_commas s' with
           | x :: r => String c x :: r
           | [] => [String c ""]
           end
  end.

Definition spec_decode (header : option string) : list string :=
  match header with
  | None => []
  | Some s => split_commas s
  end.

Definition spec_contains (chain : list string) (id : string) : bool :=
  bool_decide (id ∈ chain).

(** ** Predicates used to state the properties *)

(** A loop body that always falls through to the next iteration. *)
Definition never_raises {World A} (body : A → M World unit) : Prop :=
  ∀ x w, value (body x w) = Returned tt.

(** A destination receives a call when it is not in the loop header and
    its operations pass the hook's gate. *)
Definition forwards_to (x_loop : string) (gate : list string → bool)
    (d : Destination) : Prop :=
  str_in (remote_of d) x_loop = false ∧ gate (actions_of d) = true.

#[export] Instance forwards_to_dec x_loop gate d : Decision (forwards_to x_loop gate d).
Proof. unfold forwards_to. apply _. Defined.

(** What one iteration of the post-receive loop leaves in the trace:
    a skip notice, a failure warning after the call, or the call followed
    by the success lines. *)
Inductive post_receive_record (d : Destination) : list Effect → Prop :=
| record_in_xloop :
    post_receive_record d
      [Print ("post-receive: " +:+ remote_of d
              +:+ " is in xloop already. do not forward back to remote.")]
| record_not_configured :
    post_receive_record d [Print "post-receive: alert forwarding not configured."]
| record_failed c e :
    endpoint c = remote_of d →
    post_receive_record d
      [Print ("post-receive: forward alert to " +:+ remote_of d +:+ "...");
       Remote c;
       LogWarning ("Failed to forward alert to " +:+ remote_of d +:+ " - " +:+ e)]
| record_sent c line :
    endpoint c = remote_of d →
    post_receive_record d
      [Print ("post-receive: forward alert to " +:+ remote_of d +:+ "...");
       Remote c; Print line; Print "post-receive: sent!"].

(** The inbound guard as the specification words it: decode the header
    into a chain, reject when the node's own origin is a member, pass the
    alert through otherwise. *)
Definition inbound_guard_spec {World} (absolute_url : Request → string)
    (req : Request) (alert : Alert) (w : World) : Prop :=
  if spec_contains (spec_decode (headers_get req X_LOOP_HEADER)) (absolute_url req)
  then ∃ msg, value (pre_receive absolute_url req alert w) = Raised (ForwardingLoop msg)
  else value (pre_receive absolute_url req alert w) = Returned alert.

(** An event is replicated to a destination table when every destination
    of the table receives a remote call. *)
Definition replicated_to (dests : list Destination) (t : list Effect) : Prop :=
  ∀ d, d ∈ dests → remote_of d ∈ endpoint <$> calls t.

(** ** Concrete peers, requests and alerts for the examples *)

(** Every peer is down. *)
Definition unreachable (w : nat) (c : RemoteCall) : nat * Reply :=
  (S w, Throws "connection refused").

(** Every peer answers. *)
Definition reachable (w : nat) (c : RemoteCall) : nat * Reply :=
  (S w, Responds (Some "ok")).

(** Only the peer at [http://b] is down. *)
Definition b_is_down (w : nat) (c : RemoteCall) : nat * Reply :=
  (S w, if decide (endpoint c = "http://b") then Throws "connection refused"
        else Responds None).

(** The origin of the node under test. *)
Definition this_node (req : Request) : string := "http://me".

Definition request_with_loop (x_loop : string) : Request :=
  mkRequest {[ X_LOOP_HEADER := x_loop ]} "{}".

Definition request_without_loop : Request := mkRequest ∅ "{}".

Definition an_alert : Alert := mkAlert "a1" ∅.

Definition three_peers : list Destination :=
  [("http://a", ∅, ["fwd"]); ("http://b", ∅, ["*"]); ("http://c", ∅, ["fwd"; "ack"])].

Definition two_peers : list Destination :=
  [("http://a", ∅, ["*"]); ("http://b", ∅, ["delete"])].

(** ** Observers of a run *)

Definition auth_of (d : Destination) : gmap string string := d.1.2.

(** The remote world after performing the calls [cs] in order. *)
Fixpoint run_calls {World} (client : World → RemoteCall → World * Reply) (w : World)
    (cs : list RemoteCall) : World :=
  match cs with
  | [] => w
  | c :: cs' => run_calls client (client w c).1 cs'
  end.

(** A loop body that reaches the remote world only through the calls it
    records. *)
Definition body_world_ok {World A} (client : World → RemoteCall → World * Reply)
    (body : A → M World unit) : Prop :=
  ∀ x w, world (body x w) = run_calls client w (calls (trace (body x w))).

(** The calls among [cs], performed in order from [w], that raise, each
    with the text of its error. *)
Fixpoint failures {World} (client : World → RemoteCall → World * Reply) (w : World)
    (cs : list RemoteCall) : list (RemoteCall * string) :=
  match cs with
  | [] => []
  | c :: cs' =>
      match (client w c).2 with
      | Throws e => (c, e) :: failures client (client w c).1 cs'
      | Responds _ => failures client (client w c).1 cs'
      end
  end.

(** The lines passed to [LOG.warning], in order. *)
Fixpoint warnings (t : list Effect) : list string :=
  match t with
  | [] => []
  | LogWarning line :: t' => line :: warnings t'
  | _ :: t' => warnings t'
  end.

(** [relayed req req']: the loop header of [req'] was built from that of
    [req] by zero or more hops, each hop being a node that received a
    request and attached [append_to_header] of its own origin to the
    request it sent on. *)
Inductive relayed : Request → Request → Prop :=
| relayed_here req : relayed req req
| relayed_hop req req1 req2 origin :
    relayed req req1 →
    headers req2 !! X_LOOP_HEADER = Some (append_to_header req1 origin) →
    relayed req req2.

(** ** Checks on concrete inputs *)

Example str_in_ex1 : str_in "nodeB" "nodeA,nodeB" = true.
Proof. reflexivity. Qed.

Example str_in_ex2 : str_in "nodeC" "nodeA,nodeB" = false.
Proof. reflexivity. Qed.

Example list_in_ex : list_in "fwd" ["ack"; "fwd"] = true.
Proof. reflexivity. Qed.

Example hdr_ex : headers_get_default (mkRequest {[ X_LOOP_HEADER := "a" ]} "") X_LOOP_HEADER "" = "a".
Proof. reflexivity. Qed.

Example split_ex : split_commas "nodeA,nodeB" = ["nodeA"; "nodeB"].
Proof. reflexivity. Qed.

(** ** Facts about the string primitives *)

Lemma str_app_cons (a : ascii) (s t : string) :
  String a s +:+ t = String a (s +:+ t).
Proof. reflexivity. Qed.

Lemma str_app_nil_l (s : string) : "" +:+ s = s.
Proof. reflexivity. Qed.

Lemma str_app_nil_r (s : string) : s +:+ "" = s.
Proof.
  induction s as [|a s IH]; [done|].
  by rewrite str_app_cons, IH.
Qed.

Lemma str_startswith_iff (sub s : string) :
  str_startswith sub s = true ↔ ∃ q, s = sub +:+ q.
Proof.
  revert s. induction sub as [|a sub IH]; intros s; simpl.
  - split; [intros _; by exists s | done].
  - destruct s as [|b s].
    + split; [done | intros [q Hq]; discriminate Hq].
    + destruct (decide (a = b)) as [->|Hne].
      * rewrite IH. split; intros [q Hq]; exists q.
        -- by rewrite str_app_cons, Hq.
        -- rewrite str_app_cons in Hq. by injection Hq.
      * split; [done|]. intros [q Hq].
        rewrite str_app_cons in Hq. injection Hq as Hab _. by destruct Hne.
Qed.

Lemma str_in_iff (sub s : string) :
  str_in sub s = true ↔ ∃ p q, s = p +:+ sub +:+ q.
Proof.
  induction s as [|b s IH]; simpl.
  - rewrite orb_false_r, str_startswith_iff. split.
    + intros [q Hq]. by exists "", q.
    + intros (p & q & Hpq). destruct p; [by exists q | discriminate Hpq].
  - rewrite orb_true_iff, str_startswith_iff, IH. split.
    + intros [[q Hq] | (p & q & Hpq)].
      * by exists "", q.
      * exists (String b p), q. by rewrite str_app_cons, Hpq.
    + intros (p & q & Hpq). destruct p as [|c p].
      * left. by exists q.
      * right. rewrite str_app_cons in Hpq. injection Hpq as _ Hs. by exists p, q.
Qed.

Lemma str_in_empty (s : string) : str_in "" s = true.
Proof. destruct s; reflexivity. Qed.

Lemma str_in_refl (s : string) : str_in s s = true.
Proof. apply str_in_iff. exists "", "". by rewrite str_app_nil_r. Qed.

Lemma str_in_suffix (p s : string) : str_in s (p +:+ s) = true.
Proof. apply str_in_iff. exists p, "". by rewrite str_app_nil_r. Qed.

Lemma str_in_of_empty (s : string) : str_in s "" = true ↔ s = "".
Proof. destruct s; simpl; split; done. Qed.

Lemma split_commas_head (s : string) :
  ∃ x r, split_commas s = x :: r ∧ str_startswith x s = true.
Proof.
  induction s as [|c s (x & r & Hs & Hx)]; simpl.
  - by exists "", [].
  - destruct (decide (c = ","%char)).
    + by exists "", (split_commas s).
    + rewrite Hs. exists (String c x), r. split; [done|].
      simpl. by rewrite decide_True.
Qed.

Lemma split_commas_in (x s : string) :
  x ∈ split_commas s → str_in x s = true.
Proof.
  induction s as [|c s IH]; simpl.
  - intros ->%list_elem_of_singleton. reflexivity.
  - destruct (decide (c = ","%char)) as [->|Hc].
    + intros [->|Hx]%elem_of_cons.
      * reflexivity.
      * rewrite (IH Hx). apply orb_true_r.
    + destruct (split_commas_head s) as (y & r & Hs & Hy).
      rewrite Hs in IH |- *. intros [->|Hx]%elem_of_cons.
      * simpl. by rewrite decide_True, Hy.
      * rewrite IH; [apply orb_true_r | by right].
Qed.

(** ** Facts about the hook monad and the [for] loop *)

Section Monad_facts.

Context {World : Type}.

Lemma bind_returned {A B} (m : M World A) (k : A → M World B) w a w1 t1 :
  m w = (Returned a, w1, t1) →
  (m ≫= k) w = (value (k a w1), world (k a w1), t1 ++ trace (k a w1)).
Proof.
  intros Hm. unfold mbind, M_bind. rewrite Hm.
  by destruct (k a w1) as [[r w2] t2].
Qed.

Lemma bind_raised {A B} (m : M World A) (k : A → M World B) w e w1 t1 :
  m w = (Raised e, w1, t1) → (m ≫= k) w = (Raised e, w1, t1).
Proof. intros Hm. unfold mbind, M_bind. by rewrite Hm. Qed.

Lemma print_bind {B} (line : string) (k : unit → M World B) w :
  (print line ≫= k) w = (value (k tt w), world (k tt w), Print line :: trace (k tt w)).
Proof. by rewrite (bind_returned _ _ w tt w [Print line]). Qed.

Lemma calls_app (t1 t2 : list Effect) : calls (t1 ++ t2) = calls t1 ++ calls t2.
Proof.
  induction t1 as [|[line|line|c] t1 IH]; simpl; [done| done | done |].
  by rewrite IH.
Qed.

Lemma for_each_cons {A} (x : A) (l : list A) (body : A → M World unit) w :
  never_raises body →
  for_each (x :: l) body w =
    (value (for_each l body (world (body x w))),
     world (for_each l body (world (body x w))),
     trace (body x w) ++ trace (for_each l body (world (body x w)))).
Proof.
  intros Hbody. specialize (Hbody x w). simpl.
  destruct (body x w) as [[r w1] t1] eqn:Hx. unfold value in Hbody. simpl in Hbody.
  subst r. by rewrite (bind_returned _ _ _ _ _ _ Hx).
Qed.

Lemma for_each_returns {A} (l : list A) (body : A → M World unit) w :
  never_raises body → value (for_each l body w) = Returned tt.
Proof.
  intros Hbody. revert w. induction l as [|x l IH]; intros w; [done|].
  rewrite for_each_cons by done. apply IH.
Qed.

(** The trace of a loop is the concatenation of one chunk per element,
    each chunk satisfying whatever holds of the body's trace in every
    world. *)
Lemma for_each_chunks {A} (P : A → list Effect → Prop) (l : list A)
    (body : A → M World unit) w :
  never_raises body →
  (∀ x w', P x (trace (body x w'))) →
  ∃ chunks, trace (for_each l body w) = concat chunks ∧ Forall2 P l chunks.
Proof.
  intros Hbody HP. revert w. induction l as [|x l IH]; intros w.
  - exists []. split; [done | constructor].
  - destruct (IH (world (body x w))) as (chunks & Ht & Hall).
    exists (trace (body x w) :: chunks). split.
    + rewrite for_each_cons by done. unfold trace at 1. simpl. by rewrite Ht.
    + by constructor.
Qed.

Lemma Forall2_calls_filter {A} (f : A → string) (P : A → Prop)
    `{!∀ x, Decision (P x)} (l : list A) (chunks : list (list Effect)) :
  Forall2 (λ x c, endpoint <$> calls c = if decide (P x) then [f x] else []) l chunks →
  endpoint <$> calls (concat chunks) = f <$> filter P l.
Proof.
  induction 1 as [|x c l chunks Hx _ IH]; [done|].
  simpl. rewrite calls_app, fmap_app, Hx, IH.
  rewrite filter_cons. by destruct (decide (P x)).
Qed.

End Monad_facts.

(** ** The fan-out loops, one destination at a time *)

Section Forwarder_facts.

Context {World : Type}.
Variable client : World → RemoteCall → World * Reply.
Variable absolute_url : Request → string.

Ltac enter_body d :=
  destruct d as [[remote auth] actions];
  unfold forwards_to, remote_of, actions_of; simpl;
  destruct (str_in remote _) eqn:Hloop; simpl.

Ltac run_call w :=
  rewrite print_bind; unfold mbind, M_bind, call, value, world, trace; simpl;
  match goal with |- context [client w ?c] => destruct (client w c) as [w' [message|e]] end;
  simpl.

(** *** post-receive *)

Lemma post_receive_body_returns req alert origin x_loop :
  never_raises (post_receive_body client req alert origin x_loop).
Proof.
  intros d w. enter_body d; [done|].
  destruct (post_receive_gate actions); simpl; [|done].
  run_call w; [|done]. by destruct (truthy message).
Qed.

Lemma post_receive_body_calls req alert origin x_loop d w :
  endpoint <$> calls (trace (post_receive_body client req alert origin x_loop d w)) =
  if decide (forwards_to x_loop post_receive_gate d) then [remote_of d] else [].
Proof.
  destruct (decide _) as [[Hloop Hgate]|Hno]; destruct d as [[remote auth] actions];
    unfold forwards_to, remote_of, actions_of in *; simpl in *.
  - rewrite Hloop, Hgate. simpl. run_call w; [|done]. by destruct (truthy message).
  - destruct (str_in remote x_loop); [done|].
    destruct (post_receive_gate actions); [by destruct Hno | done].
Qed.

Lemma post_receive_body_record req alert origin x_loop d w :
  post_receive_record d (trace (post_receive_body client req alert origin x_loop d w)).
Proof.
  enter_body d; [apply record_in_xloop|].
  destruct (post_receive_gate actions); simpl; [|apply record_not_configured].
  run_call w.
  - destruct (truthy message); by apply record_sent.
  - by apply record_failed.
Qed.

Lemma post_receive_body_skip req alert origin x_loop d w :
  str_in (remote_of d) x_loop = true →
  trace (post_receive_body client req alert origin x_loop d w) =
    [Print ("post-receive: " +:+ remote_of d
            +:+ " is in xloop already. do not forward back to remote.")].
Proof. destruct d as [[remote auth] actions]. unfold remote_of. simpl. by intros ->. Qed.

(** *** take-action *)

Lemma take_action_body_returns req alert act text origin x_loop :
  never_raises (take_action_body client req alert act text origin x_loop).
Proof.
  intros d w. enter_body d; [done|].
  destruct (take_action_gate act actions); simpl; [|done].
  by run_call w.
Qed.

Lemma take_action_body_calls req alert act text origin x_loop d w :
  endpoint <$> calls (trace (take_action_body client req alert act text origin x_loop d w)) =
  if decide (forwards_to x_loop (take_action_gate act) d) then [remote_of d] else [].
Proof.
  destruct (decide _) as [[Hloop Hgate]|Hno]; destruct d as [[remote auth] actions];
    unfold forwards_to, remote_of, actions_of in *; simpl in *.
  - rewrite Hloop, Hgate. simpl. by run_call w.
  - destruct (str_in remote x_loop); [done|].
    destruct (take_action_gate act actions); [by destruct Hno | done].
Qed.

Lemma take_action_body_skip req alert act text origin x_loop d w :
  str_in (remote_of d) x_loop = true →
  trace (take_action_body client req alert act text origin x_loop d w) =
    [Print ("take-action: remote " +:+ remote_of d
            +:+ " is in xloop. do not forward action.")].
Proof. destruct d as [[remote auth] actions]. unfold remote_of. simpl. by intros ->. Qed.

(** *** delete *)

Lemma delete_body_returns req alert origin x_loop :
  never_raises (delete_body client req alert origin x_loop).
Proof.
  intros d w. enter_body d; [done|].
  destruct (delete_gate actions); simpl; [|done].
  by run_call w.
Qed.

Lemma delete_body_calls req alert origin x_loop d w :
  endpoint <$> calls (trace (delete_body client req alert origin x_loop d w)) =
  if decide (forwards_to x_loop delete_gate d) then [remote_of d] else [].
Proof.
  destruct (decide _) as [[Hloop Hgate]|Hno]; destruct d as [[remote auth] actions];
    unfold forwards_to, remote_of, actions_of in *; simpl in *.
  - rewrite Hloop, Hgate. simpl. by run_call w.
  - destruct (str_in remote x_loop); [done|].
    destruct (delete_gate actions); [by destruct Hno | done].
Qed.

Lemma delete_body_skip req alert origin x_loop d w :
  str_in (remote_of d) x_loop = true →
  trace (delete_body client req alert origin x_loop d w) =
    [Print ("delete: remote " +:+ remote_of d
            +:+ " is in xloop. do not forward delete.")].
Proof. destruct d as [[remote auth] actions]. unfold remote_of. simpl. by intros ->. Qed.

(** *** The hooks around their loops *)

Lemma for_each_run {A} (l : list A) (body : A → M World unit) w :
  never_raises body →
  for_each l body w =
    (Returned tt, world (for_each l body w), trace (for_each l body w)).
Proof.
  intros Hbody. pose proof (for_each_returns l body w Hbody) as Hv.
  destruct (for_each l body w) as [[r w1] t1]. unfold value in Hv. simpl in Hv.
  by subst r.
Qed.

Lemma post_receive_run dests req alert w :
  let loop := for_each dests
                (post_receive_body client req alert (absolute_url req)
                   (headers_get_default req X_LOOP_HEADER "")) w in
  post_receive client absolute_url dests req alert w =
    (Returned alert, world loop,
     Print "post-receive: forward alert to remotes..." :: trace loop
       ++ [Print "post-receive: continue to process alert..."]).
Proof.
  intros loop. unfold post_receive. rewrite print_bind.
  rewrite (bind_returned _ _ _ _ _ _
             (for_each_run dests _ w (post_receive_body_returns _ _ _ _))).
  by rewrite print_bind.
Qed.

Lemma take_action_run dests req alert act text w :
  str_in (absolute_url req) (headers_get_default req X_LOOP_HEADER "") = false →
  let loop := for_each dests
                (take_action_body client req alert act text (absolute_url req)
                   (headers_get_default req X_LOOP_HEADER "")) w in
  take_action client absolute_url dests req alert act text w =
    (Returned alert, world loop,
     Print "take-action: start..." :: Print "take-action: forward alert action to remotes..."
       :: trace loop ++ [Print "take-action: continue to process action..."]).
Proof.
  intros Hguard loop. unfold take_action, http_origin. rewrite print_bind, Hguard.
  rewrite print_bind.
  rewrite (bind_returned _ _ _ _ _ _
             (for_each_run dests _ w (take_action_body_returns _ _ _ _ _ _))).
  by rewrite print_bind.
Qed.

Lemma take_action_loop dests req alert act text w :
  str_in (absolute_url req) (headers_get_default req X_LOOP_HEADER "") = true →
  take_action client absolute_url dests req alert act text w =
    (Raised (ForwardingLoop ("Alert " +:+ alert_id alert +:+ " action " +:+ act
                             +:+ " already processed by " +:+ absolute_url req +:+ ".")),
     w, [Print "take-action: start..."; Print "take-action : loop detected."]).
Proof.
  intros Hguard. unfold take_action, http_origin. rewrite print_bind, Hguard.
  by rewrite print_bind.
Qed.

Lemma delete_run dests req alert w :
  str_in (absolute_url req) (headers_get_default req X_LOOP_HEADER "") = false →
  let loop := for_each dests
                (delete_body client req alert (absolute_url req)
                   (headers_get_default req X_LOOP_HEADER "")) w in
  delete client absolute_url dests req alert w =
    (Returned true, world loop,
     Print (environ req) :: Print "delete: start..."
       :: Print "delete: forward alert delete to remotes..."
       :: trace loop ++ [Print "delete: continue to process delete..."]).
Proof.
  intros Hguard loop. unfold delete, http_origin. rewrite !print_bind, Hguard.
  rewrite print_bind.
  rewrite (bind_returned _ _ _ _ _ _
             (for_each_run dests _ w (delete_body_returns _ _ _ _))).
  by rewrite print_bind.
Qed.

Lemma delete_loop dests req alert w :
  str_in (absolute_url req) (headers_get_default req X_LOOP_HEADER "") = true →
  delete client absolute_url dests req alert w =
    (Raised (ForwardingLoop ("Alert " +:+ alert_id alert +:+ " already deleted by "
                             +:+ absolute_url req +:+ ".")),
     w, [Print (environ req); Print "delete: start..."; Print "delete : loop detected."]).
Proof.
  intros Hguard. unfold delete, http_origin. rewrite !print_bind, Hguard.
  by rewrite print_bind.
Qed.

(** *** Which destinations each hook calls *)

Lemma loop_calls (gate : list string → bool) x_loop dests
    (body : Destination → M World unit) w :
  never_raises body →
  (∀ d w', endpoint <$> calls (trace (body d w')) =
           if decide (forwards_to x_loop gate d) then [remote_of d] else []) →
  endpoint <$> calls (trace (for_each dests body w)) =
    remote_of <$> filter (forwards_to x_loop gate) dests.
Proof.
  intros Hret Hcalls.
  destruct (for_each_chunks
              (λ d c, endpoint <$> calls c =
                      if decide (forwards_to x_loop gate d) then [remote_of d] else [])
              dests body w Hret Hcalls) as (chunks & -> & Hall).
  by apply Forall2_calls_filter.
Qed.

Lemma post_receive_calls dests req alert w :
  endpoint <$> calls (trace (post_receive client absolute_url dests req alert w)) =
    remote_of <$> filter (forwards_to (headers_get_default req X_LOOP_HEADER "")
                            post_receive_gate) dests.
Proof.
  rewrite post_receive_run. unfold trace at 1. simpl.
  rewrite calls_app, fmap_app. simpl. rewrite app_nil_r.
  apply loop_calls; [apply post_receive_body_returns|].
  apply post_receive_body_calls.
Qed.

Lemma take_action_calls dests req alert act text w :
  str_in (absolute_url req) (headers_get_default req X_LOOP_HEADER "") = false →
  endpoint <$> calls (trace (take_action client absolute_url dests req alert act text w)) =
    remote_of <$> filter (forwards_to (headers_get_default req X_LOOP_HEADER "")
                            (take_action_gate act)) dests.
Proof.
  intros Hguard. rewrite take_action_run by done. unfold trace at 1. simpl.
  rewrite calls_app, fmap_app. simpl. rewrite app_nil_r.
  apply loop_calls; [apply take_action_body_returns|].
  apply take_action_body_calls.
Qed.

Lemma delete_calls dests req alert w :
  str_in (absolute_url req) (headers_get_default req X_LOOP_HEADER "") = false →
  endpoint <$> calls (trace (delete client absolute_url dests req alert w)) =
    remote_of <$> filter (forwards_to (headers_get_default req X_LOOP_HEADER "")
                            delete_gate) dests.
Proof.
  intros Hguard. rewrite delete_run by done. unfold trace at 1. simpl.
  rewrite calls_app, fmap_app. simpl. rewrite app_nil_r.
  apply loop_calls; [apply delete_body_returns|].
  apply delete_body_calls.
Qed.

(** A destination found in the loop header is not among the called. *)
Lemma in_loop_not_called gate x_loop (dests : list Destination) d :
  str_in (remote_of d) x_loop = true →
  remote_of d ∉ remote_of <$> filter (forwards_to x_loop gate) dests.
Proof.
  intros Hin (d' & Heq & Hd')%list_elem_of_fmap.
  apply list_elem_of_filter in Hd' as [[Hout _] _].
  rewrite <- Heq in Hout. congruence.
Qed.

(** Every effect of an iteration shows up in the trace of the loop. *)
Lemma for_each_trace_elem {A} (l : list A) (body : A → M World unit) x w :
  never_raises body → x ∈ l →
  ∃ w', ∀ e, e ∈ trace (body x w') → e ∈ trace (for_each l body w).
Proof.
  intros Hbody. revert w. induction l as [|y l IH]; intros w Hx.
  - by apply elem_of_nil in Hx.
  - apply elem_of_cons in Hx as [->|Hx].
    + exists w. intros e He. rewrite for_each_cons by done.
      unfold trace at 1. simpl. apply elem_of_app. by left.
    + destruct (IH (world (body y w)) Hx) as [w' Hw'].
      exists w'. intros e He. rewrite for_each_cons by done.
      unfold trace at 1. simpl. apply elem_of_app. right. by apply Hw'.
Qed.

End Forwarder_facts.

(** ** Loop marker *)

Lemma str_in_app_r (sub p t : string) :
  str_in sub t = true → str_in sub (p +:+ t) = true.
Proof.
  intros Ht. induction p as [|a p IH]; [done|].
  rewrite str_app_cons. simpl. rewrite IH. apply orb_true_r.
Qed.

(** C2. Whatever the inbound header (absent, empty or a chain), the value
    [append_to_header] puts on the outbound request makes the membership
    test [is_in_xloop] of the receiving request answer true for the
    appended identifier. *)
Theorem append_then_is_in_xloop (req req' : Request) (origin : string) :
  headers req' !! X_LOOP_HEADER = Some (append_to_header req origin) →
  is_in_xloop req' origin = true.
Proof.
  intros Hhdr. unfold is_in_xloop, headers_get_default. rewrite Hhdr. simpl.
  unfold append_to_header. destruct (truthy _); simpl.
  - apply str_in_app_r, str_in_suffix.
  - apply str_in_refl.
Qed.

Lemma append_then_is_in_xloop_witness :
  headers (request_with_loop "nodeA,nodeB") !! X_LOOP_HEADER
    = Some (append_to_header (request_with_loop "nodeA") "nodeB")
  ∧ is_in_xloop (request_with_loop "nodeA,nodeB") "nodeB" = true.
Proof.
  split; [reflexivity|].
  apply (append_then_is_in_xloop (request_with_loop "nodeA")). reflexivity.
Defined.

(** C8, as stated, fails for the empty identifier: with no loop header
    the membership test compares against [''], and ['' in ''] holds. *)
Lemma absent_header_contains_empty_id :
  is_in_xloop request_without_loop "" = true.
Proof. reflexivity. Qed.

(** C8, amended. With the loop header absent, the membership test is
    false for every non-empty identifier. *)
Theorem absent_header_contains_nothing (req : Request) (id : string) :
  headers req !! X_LOOP_HEADER = None →
  id ≠ "" →
  is_in_xloop req id = false.
Proof.
  intros Hhdr Hid. unfold is_in_xloop, headers_get_default. rewrite Hhdr. simpl.
  apply not_true_is_false. by intros ?%str_in_of_empty.
Qed.

Lemma absent_header_contains_nothing_witness :
  is_in_xloop request_without_loop "nodeA" = false.
Proof.
  apply (absent_header_contains_nothing request_without_loop "nodeA");
    [reflexivity | discriminate].
Defined.

(** ** Inbound guard *)

Lemma pre_receive_run {World} absolute_url req alert (w : World) :
  pre_receive absolute_url req alert w =
    if str_in (absolute_url req) (headers_get_default req X_LOOP_HEADER "")
    then (Raised (ForwardingLoop ("Alert " +:+ alert_id alert +:+ " already processed by "
                                  +:+ absolute_url req +:+ ". Ignoring.")), w, [])
    else (Returned alert, w, []).
Proof. unfold pre_receive, is_in_xloop, http_origin. by destruct (str_in _ _). Qed.

Lemma spec_decode_in (hdr : option string) (id : string) :
  id ∈ spec_decode hdr → str_in id (default "" hdr) = true.
Proof.
  destruct hdr as [s|]; simpl.
  - apply split_commas_in.
  - by intros ?%elem_of_nil.
Qed.

(** C1, as stated, fails: origin [node] is not an element of the chain
    decoded from [nodeA], yet the guard rejects the alert. *)
Lemma inbound_guard_rejects_non_member :
  ¬ inbound_guard_spec (World:=nat) (λ _, "node") (request_with_loop "nodeA") an_alert 0.
Proof. unfold inbound_guard_spec. vm_compute. discriminate. Qed.

(** C1, amended. The pre-receive guard raises ForwardingLoop exactly when
    the node's own origin occurs as a substring of the X-Alerta-Loop header
    value (an absent header counting as empty), which covers every origin
    that is an element of the comma-separated chain; otherwise it returns
    the alert unchanged, with no effect.  With header [nodeA,nodeB] it
    raises for origin [nodeB] and passes for origin [nodeC]. *)
Theorem pre_receive_guard {World} (absolute_url : Request → string) (req : Request)
    (alert : Alert) (w : World) :
  ((∃ p q, headers_get_default req X_LOOP_HEADER "" = p +:+ absolute_url req +:+ q) →
     ∃ msg, pre_receive absolute_url req alert w = (Raised (ForwardingLoop msg), w, []))
  ∧ ((¬ ∃ p q, headers_get_default req X_LOOP_HEADER "" = p +:+ absolute_url req +:+ q) →
     pre_receive absolute_url req alert w = (Returned alert, w, []))
  ∧ (absolute_url req ∈ spec_decode (headers_get req X_LOOP_HEADER) →
     ∃ msg, pre_receive absolute_url req alert w = (Raised (ForwardingLoop msg), w, []))
  ∧ (∃ msg, pre_receive (λ _, "nodeB") (request_with_loop "nodeA,nodeB") alert w
            = (Raised (ForwardingLoop msg), w, []))
  ∧ pre_receive (λ _, "nodeC") (request_with_loop "nodeA,nodeB") alert w
    = (Returned alert, w, []).
Proof.
  rewrite pre_receive_run. split; [|split; [|split; [|split]]].
  - intros Hsub%str_in_iff. rewrite Hsub. eauto.
  - intros Hsub. destruct (str_in _ _) eqn:Hin; [|done].
    destruct Hsub. by apply str_in_iff.
  - intros Hin%spec_decode_in. unfold headers_get_default, headers_get in *.
    rewrite Hin. eauto.
  - rewrite pre_receive_run. eauto.
  - by rewrite pre_receive_run.
Qed.

(** ** Action gate *)

Lemma list_in_iff (x : string) (l : list string) : list_in x l = true ↔ x ∈ l.
Proof. unfold list_in. apply bool_decide_eq_true. Qed.

(** C5, as stated, fails in its last sentence: a destination whose
    operations are [fwd] alone is permitted for the action named [fwd],
    and the action hook calls it. *)
Lemma fwd_destination_receives_fwd_action :
  take_action_gate "fwd" ["fwd"] = true
  ∧ endpoint <$> calls (trace (take_action reachable this_node
                                 [("http://b", ∅, ["fwd"])] request_without_loop
                                 an_alert "fwd" "" 0))
    = ["http://b"].
Proof. split; reflexivity. Qed.

Lemma gate_table (act : string) (actions : list string) :
  (post_receive_gate actions = true ↔ "*" ∈ actions ∨ "fwd" ∈ actions)
  ∧ (take_action_gate act actions = true ↔
       "*" ∈ actions ∨ "actions" ∈ actions ∨ act ∈ actions)
  ∧ (delete_gate actions = true ↔
       "*" ∈ actions ∨ "actions" ∈ actions ∨ "delete" ∈ actions).
Proof.
  unfold post_receive_gate, take_action_gate, delete_gate.
  rewrite !orb_true_iff, !list_in_iff. split; [done|]. split; tauto.
Qed.

(** C5, amended. The three gates follow the table: create/update is
    permitted iff the operations contain [*] or [fwd]; an action iff they
    contain [*], [actions] or the exact action name; a delete iff they
    contain [*], [actions] or [delete]; and each hook, once past its loop
    guard, calls exactly the destinations outside the loop header that the
    table permits.  A destination with operations [fwd] alone is permitted
    for an action event only when the action is itself named [fwd]. *)
Theorem permission_gate_table {World} (client : World → RemoteCall → World * Reply)
    (absolute_url : Request → string) (dests : list Destination) (req : Request)
    (alert : Alert) (act text : string) (actions : list string) (w : World) :
  (post_receive_gate actions = true ↔ "*" ∈ actions ∨ "fwd" ∈ actions)
  ∧ (take_action_gate act actions = true ↔
       "*" ∈ actions ∨ "actions" ∈ actions ∨ act ∈ actions)
  ∧ (delete_gate actions = true ↔
       "*" ∈ actions ∨ "actions" ∈ actions ∨ "delete" ∈ actions)
  ∧ (take_action_gate act ["fwd"] = true ↔ act = "fwd")
  ∧ endpoint <$> calls (trace (post_receive client absolute_url dests req alert w))
    = remote_of <$>
        filter (λ d, str_in (remote_of d) (headers_get_default req X_LOOP_HEADER "") = false
                     ∧ ("*" ∈ actions_of d ∨ "fwd" ∈ actions_of d)) dests
  ∧ (str_in (absolute_url req) (headers_get_default req X_LOOP_HEADER "") = false →
     endpoint <$> calls (trace (take_action client absolute_url dests req alert act text w))
     = remote_of <$>
         filter (λ d, str_in (remote_of d) (headers_get_default req X_LOOP_HEADER "") = false
                      ∧ ("*" ∈ actions_of d ∨ "actions" ∈ actions_of d ∨ act ∈ actions_of d))
           dests)
  ∧ (str_in (absolute_url req) (headers_get_default req X_LOOP_HEADER "") = false →
     endpoint <$> calls (trace (delete client absolute_url dests req alert w))
     = remote_of <$>
         filter (λ d, str_in (remote_of d) (headers_get_default req X_LOOP_HEADER "") = false
                      ∧ ("*" ∈ actions_of d ∨ "actions" ∈ actions_of d
                         ∨ "delete" ∈ actions_of d))
           dests).
Proof.
  destruct (gate_table act actions) as (Hfwd & Haction & Hdelete).
  do 3 (split; [done|]). split; [|split; [|split]].
  - destruct (gate_table act ["fwd"]) as (_ & -> & _).
    rewrite !list_elem_of_singleton. split; [|tauto].
    intros [Hstar|[Hactions|Hact]]; [discriminate Hstar | discriminate Hactions | done].
  - rewrite post_receive_calls. f_equal. apply list_filter_iff. intros d.
    destruct (gate_table act (actions_of d)) as (Hd & _). unfold forwards_to.
    by rewrite Hd.
  - intros Hguard. rewrite take_action_calls by done. f_equal.
    apply list_filter_iff. intros d.
    destruct (gate_table act (actions_of d)) as (_ & Hd & _). unfold forwards_to.
    by rewrite Hd.
  - intros Hguard. rewrite delete_calls by done. f_equal.
    apply list_filter_iff. intros d.
    destruct (gate_table act (actions_of d)) as (_ & _ & Hd). unfold forwards_to.
    by rewrite Hd.
Qed.

(** C6. A destination whose operations contain the wildcard [*] passes
    the gate of every hook, whatever the action name. *)
Theorem wildcard_permits_everything (act : string) (actions : list string) :
  "*" ∈ actions →
  post_receive_gate actions = true
  ∧ take_action_gate act actions = true
  ∧ delete_gate actions = true.
Proof.
  intros Hstar%list_in_iff.
  unfold post_receive_gate, take_action_gate, delete_gate. by rewrite Hstar.
Qed.

Lemma wildcard_permits_everything_witness :
  post_receive_gate ["*"] = true
  ∧ take_action_gate "shelve" ["*"] = true
  ∧ delete_gate ["*"] = true.
Proof.
  apply (wildcard_permits_everything "shelve" ["*"]). apply list_elem_of_singleton.
  reflexivity.
Defined.

(** ** Fan-out dispatch *)

Section Dispatch.

Context {World : Type}.
Variable client : World → RemoteCall → World * Reply.
Variable absolute_url : Request → string.

Lemma post_receive_skip_logged dests req alert w d :
  d ∈ dests →
  str_in (remote_of d) (headers_get_default req X_LOOP_HEADER "") = true →
  Print ("post-receive: " +:+ remote_of d
         +:+ " is in xloop already. do not forward back to remote.")
    ∈ trace (post_receive client absolute_url dests req alert w).
Proof.
  intros Hd Hin. rewrite post_receive_run. unfold trace at 1. simpl.
  destruct (for_each_trace_elem dests _ d w
              (post_receive_body_returns client req alert (absolute_url req)
                 (headers_get_default req X_LOOP_HEADER "")) Hd)
    as [w' Hw'].
  right. apply elem_of_app. left. apply Hw'.
  rewrite post_receive_body_skip by done. by left.
Qed.

Lemma take_action_skip_logged dests req alert act text w d :
  d ∈ dests →
  str_in (remote_of d) (headers_get_default req X_LOOP_HEADER "") = true →
  str_in (absolute_url req) (headers_get_default req X_LOOP_HEADER "") = false →
  Print ("take-action: remote " +:+ remote_of d +:+ " is in xloop. do not forward action.")
    ∈ trace (take_action client absolute_url dests req alert act text w).
Proof.
  intros Hd Hin Hguard. rewrite take_action_run by done. unfold trace at 1. simpl.
  destruct (for_each_trace_elem dests _ d w
              (take_action_body_returns client req alert act text (absolute_url req)
                 (headers_get_default req X_LOOP_HEADER "")) Hd)
    as [w' Hw'].
  do 2 right. apply elem_of_app. left. apply Hw'.
  rewrite take_action_body_skip by done. by left.
Qed.

Lemma delete_skip_logged dests req alert w d :
  d ∈ dests →
  str_in (remote_of d) (headers_get_default req X_LOOP_HEADER "") = true →
  str_in (absolute_url req) (headers_get_default req X_LOOP_HEADER "") = false →
  Print ("delete: remote " +:+ remote_of d +:+ " is in xloop. do not forward delete.")
    ∈ trace (delete client absolute_url dests req alert w).
Proof.
  intros Hd Hin Hguard. rewrite delete_run by done. unfold trace at 1. simpl.
  destruct (for_each_trace_elem dests _ d w
              (delete_body_returns client req alert (absolute_url req)
                 (headers_get_default req X_LOOP_HEADER "")) Hd)
    as [w' Hw'].
  do 3 right. apply elem_of_app. left. apply Hw'.
  rewrite delete_body_skip by done. by left.
Qed.

Lemma take_action_not_called dests req alert act text w d :
  str_in (remote_of d) (headers_get_default req X_LOOP_HEADER "") = true →
  remote_of d ∉ endpoint <$> calls (trace (take_action client absolute_url dests req
                                             alert act text w)).
Proof.
  intros Hin.
  destruct (str_in (absolute_url req) (headers_get_default req X_LOOP_HEADER ""))
    eqn:Hguard.
  - rewrite take_action_loop by done. apply not_elem_of_nil.
  - rewrite take_action_calls by done. by apply in_loop_not_called.
Qed.

Lemma delete_not_called dests req alert w d :
  str_in (remote_of d) (headers_get_default req X_LOOP_HEADER "") = true →
  remote_of d ∉ endpoint <$> calls (trace (delete client absolute_url dests req alert w)).
Proof.
  intros Hin.
  destruct (str_in (absolute_url req) (headers_get_default req X_LOOP_HEADER ""))
    eqn:Hguard.
  - rewrite delete_loop by done. apply not_elem_of_nil.
  - rewrite delete_calls by done. by apply in_loop_not_called.
Qed.

End Dispatch.

(** C3. A configured destination whose endpoint string occurs anywhere in
    the inbound loop header is never called by the post-receive, action or
    delete hook, whatever its permitted operations; each fan-out loop that
    runs (always for post-receive, after a passing guard for action and
    delete) prints that it skipped the destination. *)
Theorem in_loop_destination_skipped {World} (client : World → RemoteCall → World * Reply)
    (absolute_url : Request → string) (dests : list Destination) (req : Request)
    (alert : Alert) (act text : string) (w : World) (d : Destination) :
  d ∈ dests →
  (∃ p q, headers_get_default req X_LOOP_HEADER "" = p +:+ remote_of d +:+ q) →
  ((remote_of d ∉ endpoint <$> calls (trace (post_receive client absolute_url dests req
                                                 alert w)))
   ∧ Print ("post-receive: " +:+ remote_of d
            +:+ " is in xloop already. do not forward back to remote.")
       ∈ trace (post_receive client absolute_url dests req alert w))
  ∧ ((remote_of d ∉ endpoint <$> calls (trace (take_action client absolute_url dests req
                                                  alert act text w)))
     ∧ (str_in (absolute_url req) (headers_get_default req X_LOOP_HEADER "") = false →
        Print ("take-action: remote " +:+ remote_of d
               +:+ " is in xloop. do not forward action.")
          ∈ trace (take_action client absolute_url dests req alert act text w)))
  ∧ ((remote_of d ∉ endpoint <$> calls (trace (delete client absolute_url dests req
                                                  alert w)))
     ∧ (str_in (absolute_url req) (headers_get_default req X_LOOP_HEADER "") = false →
        Print ("delete: remote " +:+ remote_of d +:+ " is in xloop. do not forward delete.")
          ∈ trace (delete client absolute_url dests req alert w))).
Proof.
  intros Hd Hin%str_in_iff. split; [split|split; split].
  - rewrite post_receive_calls. by apply in_loop_not_called.
  - by apply post_receive_skip_logged.
  - by apply take_action_not_called.
  - intros Hguard. by apply take_action_skip_logged.
  - by apply delete_not_called.
  - intros Hguard. by apply delete_skip_logged.
Qed.

Lemma in_loop_destination_skipped_witness :
  endpoint <$> calls (trace (post_receive b_is_down this_node three_peers
                               (request_with_loop "http://x,http://b") an_alert 0))
    = ["http://a"; "http://c"]
  ∧ Print "post-receive: http://b is in xloop already. do not forward back to remote."
      ∈ trace (post_receive b_is_down this_node three_peers
                 (request_with_loop "http://x,http://b") an_alert 0)
  ∧ Print "take-action: remote http://b is in xloop. do not forward action."
      ∈ trace (take_action b_is_down this_node three_peers
                 (request_with_loop "http://x,http://b") an_alert "ack" "" 0)
  ∧ Print "delete: remote http://b is in xloop. do not forward delete."
      ∈ trace (delete b_is_down this_node three_peers
                 (request_with_loop "http://x,http://b") an_alert 0).
Proof.
  destruct (in_loop_destination_skipped b_is_down this_node three_peers
              (request_with_loop "http://x,http://b") an_alert "ack" "" 0
              ("http://b", ∅, ["*"]))
    as ((_ & Hpost) & (_ & Haction) & (_ & Hdelete)).
  - apply list_elem_of_further, list_elem_of_here.
  - exists "http://x,", "". reflexivity.
  - split; [reflexivity|]. split; [exact Hpost|].
    split; [apply Haction | apply Hdelete]; reflexivity.
Defined.

(** C4. Whatever the remote calls do, the post-receive hook returns the
    original alert and raises nothing; it calls, in table order, every
    destination that is not in the loop header and passes the gate, so a
    failing call never stops the later ones; and its trace splits into one
    record per destination (skipped, failed with a warning naming the
    destination and the error, or sent).  With three forwarding
    destinations of which the second is down, all three are called. *)
Theorem post_receive_isolates_failures {World} (client : World → RemoteCall → World * Reply)
    (absolute_url : Request → string) (dests : list Destination) (req : Request)
    (alert : Alert) (w : World) :
  value (post_receive client absolute_url dests req alert w) = Returned alert
  ∧ endpoint <$> calls (trace (post_receive client absolute_url dests req alert w))
    = remote_of <$> filter (forwards_to (headers_get_default req X_LOOP_HEADER "")
                              post_receive_gate) dests
  ∧ (∃ chunks,
       trace (post_receive client absolute_url dests req alert w)
       = Print "post-receive: forward alert to remotes..." :: concat chunks
           ++ [Print "post-receive: continue to process alert..."]
       ∧ Forall2 post_receive_record dests chunks)
  ∧ (value (post_receive b_is_down this_node three_peers request_without_loop
              alert 0) = Returned alert
     ∧ endpoint <$> calls (trace (post_receive b_is_down this_node three_peers
                                    request_without_loop alert 0))
       = ["http://a"; "http://b"; "http://c"]
     ∧ LogWarning "Failed to forward alert to http://b - connection refused"
         ∈ trace (post_receive b_is_down this_node three_peers
                    request_without_loop alert 0)).
Proof.
  split; [by rewrite post_receive_run|]. split; [apply post_receive_calls|]. split.
  - rewrite post_receive_run. unfold trace at 1. simpl.
    destruct (for_each_chunks post_receive_record dests
                (post_receive_body client req alert (absolute_url req)
                   (headers_get_default req X_LOOP_HEADER "")) w)
      as (chunks & -> & Hall); [apply post_receive_body_returns | | by exists chunks].
    intros d w'. apply post_receive_body_record.
  - split; [reflexivity|]. split; [reflexivity|].
    vm_compute. do 7 apply list_elem_of_further. apply list_elem_of_here.
Qed.

(** C7. Once the loop guard passes, the delete hook returns [True]
    whatever the remote delete calls do, also when all of them fail. *)
Theorem delete_returns_true {World} (client : World → RemoteCall → World * Reply)
    (absolute_url : Request → string) (dests : list Destination) (req : Request)
    (alert : Alert) (w : World) :
  str_in (absolute_url req) (headers_get_default req X_LOOP_HEADER "") = false →
  value (delete client absolute_url dests req alert w) = Returned true.
Proof. intros Hguard. by rewrite delete_run. Qed.

Lemma delete_returns_true_witness :
  value (delete unreachable this_node two_peers request_without_loop an_alert 0)
    = Returned true
  ∧ world (delete unreachable this_node two_peers request_without_loop an_alert 0)
    = 2.
Proof.
  split; [|reflexivity].
  apply (delete_returns_true unreachable this_node two_peers). reflexivity.
Defined.

(** ** Status change *)

(** C9, as stated, fails: a status change is not replicated.  With one
    wildcard destination and no loop header the post-receive hook calls it
    and the status-change hook does not. *)
Lemma status_change_not_replicated :
  replicated_to [("http://b", ∅, ["*"])]
    (trace (post_receive reachable this_node [("http://b", ∅, ["*"])]
              request_without_loop an_alert 0))
  ∧ ¬ replicated_to [("http://b", ∅, ["*"])]
        (trace (status_change request_without_loop an_alert "ack" "" 0)).
Proof.
  split.
  - intros d ->%list_elem_of_singleton. apply list_elem_of_here.
  - intros Hrep. specialize (Hrep _ (list_elem_of_here _ _)).
    by apply elem_of_nil in Hrep.
Qed.

(** C9, amended. The status-change hook does nothing: it returns [None],
    makes no remote call and leaves no trace; replication to the
    configured destinations happens for create/update, and for action and
    delete events once their loop guard passes. *)
Theorem status_change_does_nothing {World} (client : World → RemoteCall → World * Reply)
    (absolute_url : Request → string) (dests : list Destination) (req : Request)
    (alert : Alert) (status act text : string) (w : World) :
  status_change req alert status text w = (Returned tt, w, [])
  ∧ endpoint <$> calls (trace (post_receive client absolute_url dests req alert w))
    = remote_of <$> filter (forwards_to (headers_get_default req X_LOOP_HEADER "")
                              post_receive_gate) dests
  ∧ (str_in (absolute_url req) (headers_get_default req X_LOOP_HEADER "") = false →
     endpoint <$> calls (trace (take_action client absolute_url dests req alert act text w))
     = remote_of <$> filter (forwards_to (headers_get_default req X_LOOP_HEADER "")
                               (take_action_gate act)) dests)
  ∧ (str_in (absolute_url req) (headers_get_default req X_LOOP_HEADER "") = false →
     endpoint <$> calls (trace (delete client absolute_url dests req alert w))
     = remote_of <$> filter (forwards_to (headers_get_default req X_LOOP_HEADER "")
                               delete_gate) dests).
Proof.
  split; [reflexivity|]. split; [apply post_receive_calls|].
  split; intros Hguard; [by apply take_action_calls | by apply delete_calls].
Qed.

(** ** Loop guards *)

(** C10. The guards of the pre-receive, action and delete hooks test
    whether the node's origin is a substring of the whole header value:
    whenever the header can be cut as [p ++ origin ++ q] -- or the origin
    is the empty string, whatever the header, absent included -- all three
    hooks raise ForwardingLoop, and the action and delete hooks make no
    remote call. *)
Theorem guards_test_substring {World} (client : World → RemoteCall → World * Reply)
    (absolute_url : Request → string) (dests : list Destination) (req : Request)
    (alert : Alert) (act text : string) (w : World) :
  (∃ p q, headers_get_default req X_LOOP_HEADER "" = p +:+ absolute_url req +:+ q)
  ∨ absolute_url req = "" →
  is_in_xloop req (absolute_url req) = true
  ∧ (∃ msg, value (pre_receive absolute_url req alert w) = Raised (ForwardingLoop msg))
  ∧ (∃ msg, value (take_action client absolute_url dests req alert act text w)
            = Raised (ForwardingLoop msg))
  ∧ (∃ msg, value (delete client absolute_url dests req alert w)
            = Raised (ForwardingLoop msg))
  ∧ calls (trace (take_action client absolute_url dests req alert act text w)) = []
  ∧ calls (trace (delete client absolute_url dests req alert w)) = [].
Proof.
  intros Horigin.
  assert (str_in (absolute_url req) (headers_get_default req X_LOOP_HEADER "") = true)
    as Hin.
  { destruct Horigin as [Hsub| ->]; [by apply str_in_iff | apply str_in_empty]. }
  rewrite pre_receive_run, take_action_loop, delete_loop by done.
  unfold is_in_xloop. rewrite Hin. unfold value, trace. simpl. eauto 10.
Qed.

Lemma guards_test_substring_witness :
  ("node" ∉ spec_decode (headers_get (request_with_loop "nodeA") X_LOOP_HEADER))
  ∧ (∃ msg, value (pre_receive (World:=nat) (λ _, "node") (request_with_loop "nodeA")
                     an_alert 0) = Raised (ForwardingLoop msg))
  ∧ (∃ msg, value (take_action reachable (λ _, "node") two_peers (request_with_loop "nodeA")
                     an_alert "ack" "" 0) = Raised (ForwardingLoop msg))
  ∧ (∃ msg, value (delete reachable (λ _, "node") two_peers (request_with_loop "nodeA")
                     an_alert 0) = Raised (ForwardingLoop msg))
  ∧ (∃ msg, value (pre_receive (World:=nat) (λ _, "") request_without_loop an_alert 0)
            = Raised (ForwardingLoop msg)).
Proof.
  destruct (guards_test_substring reachable (λ _, "node") two_peers
              (request_with_loop "nodeA") an_alert "ack" "" 0)
    as (_ & Hpre & Haction & Hdelete & _).
  { left. exists "", "A". reflexivity. }
  destruct (guards_test_substring reachable (λ _, "") two_peers
              request_without_loop an_alert "ack" "" 0)
    as (_ & Hempty & _).
  { right. reflexivity. }
  split; [|by repeat split].
  intros Hin. apply list_elem_of_singleton in Hin. discriminate Hin.
Defined.

(** ** Further properties of the loop marker *)

Lemma str_app_assoc (a b c : string) : (a +:+ b) +:+ c = a +:+ b +:+ c.
Proof.
  induction a as [|x a IH]; [done|].
  by rewrite !str_app_cons, IH.
Qed.

Lemma str_in_app_l (sub t q : string) :
  str_in sub t = true → str_in sub (t +:+ q) = true.
Proof.
  intros (p & r & ->)%str_in_iff. apply str_in_iff.
  exists p, (r +:+ q). by rewrite !str_app_assoc.
Qed.

Lemma str_in_trans (a b c : string) :
  str_in a b = true → str_in b c = true → str_in a c = true.
Proof.
  intros (p & q & ->)%str_in_iff (p' & q' & ->)%str_in_iff. apply str_in_iff.
  exists (p' +:+ p), (q +:+ q'). by rewrite !str_app_assoc.
Qed.

(** What one hop does to the membership test. *)
Lemma hop_keeps_members (req req' : Request) (origin server : string) :
  headers req' !! X_LOOP_HEADER = Some (append_to_header req origin) →
  is_in_xloop req server = true →
  is_in_xloop req' server = true.
Proof.
  intros Hhdr. unfold is_in_xloop, headers_get_default, append_to_header, headers_get in *.
  rewrite Hhdr. simpl. destruct (headers req !! X_LOOP_HEADER) as [x|]; simpl.
  - destruct x as [|a x].
    + simpl. intros ->%str_in_of_empty. apply str_in_empty.
    + change (str_in server (String a x) = true →
              str_in server (String a x +:+ "," +:+ origin) = true).
      apply str_in_app_l.
  - intros ->%str_in_of_empty. apply str_in_empty.
Qed.

Lemma hop_adds_origin (req req' : Request) (origin : string) :
  headers req' !! X_LOOP_HEADER = Some (append_to_header req origin) →
  is_in_xloop req' origin = true.
Proof.
  intros Hhdr. unfold is_in_xloop, headers_get_default. rewrite Hhdr. simpl.
  unfold append_to_header. destruct (truthy _); simpl.
  - apply str_in_app_r, str_in_suffix.
  - apply str_in_refl.
Qed.

(** X1. Forwarding never loses a member: whatever [is_in_xloop] finds in
    the header of a request, it still finds in the header that
    [append_to_header] builds from it. *)
Theorem append_keeps_members (req req' : Request) (origin server : string) :
  headers req' !! X_LOOP_HEADER = Some (append_to_header req origin) →
  is_in_xloop req server = true →
  is_in_xloop req' server = true.
Proof. apply hop_keeps_members. Qed.

Lemma append_keeps_members_witness :
  is_in_xloop (request_with_loop "nodeA,nodeB,nodeC") "nodeA" = true.
Proof.
  apply (append_keeps_members (request_with_loop "nodeA,nodeB") _ "nodeC");
    reflexivity.
Defined.

(** X2. Once a node has put its origin on an outbound request, every
    request derived from it through any number of further hops still tests
    positive for that origin. *)
Theorem origin_stays_in_chain (req req1 req' : Request) (origin : string) :
  headers req1 !! X_LOOP_HEADER = Some (append_to_header req origin) →
  relayed req1 req' →
  is_in_xloop req' origin = true.
Proof.
  intros Hfirst Hrel. induction Hrel as [req1|req1 req2 req3 o _ IH Hhop].
  - by apply (hop_adds_origin req).
  - apply (hop_keeps_members req2 req3 o); [done | by apply IH].
Qed.

Lemma origin_stays_in_chain_witness :
  is_in_xloop (request_with_loop "nodeA,nodeB,nodeC") "nodeA" = true.
Proof.
  apply (origin_stays_in_chain request_without_loop (request_with_loop "nodeA")).
  - reflexivity.
  - apply (relayed_hop _ (request_with_loop "nodeA,nodeB") _ "nodeC").
    + apply (relayed_hop _ (request_with_loop "nodeA") _ "nodeB");
        [apply relayed_here | reflexivity].
    + reflexivity.
Defined.

(** X3. The membership test is closed under substrings: when it finds a
    server in the header it finds every substring of that server's name
    too, so a node whose origin is contained in the origin of a node that
    already handled the alert is treated as having handled it. *)
Theorem is_in_xloop_substring (req : Request) (server sub : string) :
  is_in_xloop req server = true →
  (∃ p q, server = p +:+ sub +:+ q) →
  is_in_xloop req sub = true.
Proof.
  unfold is_in_xloop. intros Hserver Hsub%str_in_iff.
  by apply (str_in_trans sub server).
Qed.

Lemma is_in_xloop_substring_witness :
  is_in_xloop (request_with_loop "http://alerta2.example") "http://alerta" = true.
Proof.
  apply (is_in_xloop_substring _ "http://alerta2.example"); [reflexivity|].
  exists "", "2.example". reflexivity.
Defined.

(** ** Further properties of the fan-out loops *)

Lemma warnings_app (t1 t2 : list Effect) :
  warnings (t1 ++ t2) = warnings t1 ++ warnings t2.
Proof.
  induction t1 as [|[line|line|c] t1 IH]; simpl; [done | done | | done].
  by rewrite IH.
Qed.

Section Loop_facts.

Context {World : Type}.
Variable client : World → RemoteCall → World * Reply.


Lemma failures_app (w : World) (cs1 cs2 : list RemoteCall) :
  failures client w (cs1 ++ cs2)
  = failures client w cs1 ++ failures client (run_calls client w cs1) cs2.
Proof.
  revert w. induction cs1 as [|c cs1 IH]; intros w; simpl; [done|].
  destruct (client w c).2; by rewrite IH.
Qed.


Lemma loop_warnings {A} (line : RemoteCall * string → string) (l : list A)
    (body : A → M World unit) w :
  never_raises body → body_world_ok client body →
  (∀ x w', warnings (trace (body x w'))
           = line <$> failures client w' (calls (trace (body x w')))) →
  warnings (trace (for_each l body w))
  = line <$> failures client w (calls (trace (for_each l body w))).
Proof.
  intros Hret Hworld Hwarn. revert w. induction l as [|x l IH]; intros w; [done|].
  rewrite for_each_cons by done. unfold trace at 1 3. simpl.
  by rewrite warnings_app, calls_app, failures_app, fmap_app, <- Hworld, <- IH, <- Hwarn.
Qed.

Lemma loop_calls_exact {A} (P : A → Prop) `{!∀ x, Decision (P x)} (mk : A → RemoteCall)
    (l : list A) (body : A → M World unit) w :
  never_raises body →
  (∀ x w', calls (trace (body x w')) = if decide (P x) then [mk x] else []) →
  calls (trace (for_each l body w)) = mk <$> filter P l.
Proof.
  intros Hret Hcalls. revert w. induction l as [|x l IH]; intros w; [done|].
  rewrite for_each_cons by done. unfold trace at 1. simpl.
  rewrite calls_app, Hcalls, IH, filter_cons. by destruct (decide (P x)).
Qed.

End Loop_facts.

Section Body_facts.

Context {World : Type}.
Variable client : World → RemoteCall → World * Reply.

Ltac open_body d :=
  destruct d as [[remote auth] actions];
  unfold forwards_to, remote_of, auth_of, actions_of in *; simpl in *.

Ltac perform_call w :=
  rewrite print_bind; unfold mbind, M_bind, call, value, world, trace; simpl;
  match goal with
  | |- context [client w ?c] =>
      destruct (client w c) as [w' [message|e]] eqn:Hreply;
      [try destruct (truthy message)|]
  end;
  simpl;
  match goal with
  | H : client w _ = _ |- _ => rewrite ?H
  end;
  simpl.

Ltac skipped_or_called w :=
  match goal with
  | |- context [str_in ?r ?x] => destruct (str_in r x); [done|]
  end;
  match goal with
  | |- context [negb ?g] => destruct g; simpl; [|done]
  end;
  perform_call w.

Lemma post_receive_body_calls_exact req alert origin x_loop d w :
  calls (trace (post_receive_body client req alert origin x_loop d w)) =
  if decide (forwards_to x_loop post_receive_gate d)
  then [mkCall (remote_of d) (auth_of d) {[ X_LOOP_HEADER := append_to_header req origin ]}
          (send_alert (get_body alert))]
  else [].
Proof.
  destruct (decide _) as [[Hloop Hgate]|Hno]; open_body d.
  - rewrite Hloop, Hgate. simpl. by perform_call w.
  - destruct (str_in remote x_loop); [done|].
    destruct (post_receive_gate actions); [by destruct Hno | done].
Qed.

Lemma take_action_body_calls_exact req alert act text origin x_loop d w :
  calls (trace (take_action_body client req alert act text origin x_loop d w)) =
  if decide (forwards_to x_loop (take_action_gate act) d)
  then [mkCall (remote_of d) (auth_of d) {[ X_LOOP_HEADER := append_to_header req origin ]}
          (action (alert_id alert) act text)]
  else [].
Proof.
  destruct (decide _) as [[Hloop Hgate]|Hno]; open_body d.
  - rewrite Hloop, Hgate. simpl. by perform_call w.
  - destruct (str_in remote x_loop); [done|].
    destruct (take_action_gate act actions); [by destruct Hno | done].
Qed.

Lemma delete_body_calls_exact req alert origin x_loop d w :
  calls (trace (delete_body client req alert origin x_loop d w)) =
  if decide (forwards_to x_loop delete_gate d)
  then [mkCall (remote_of d) (auth_of d) {[ X_LOOP_HEADER := append_to_header req origin ]}
          (delete_alert (alert_id alert))]
  else [].
Proof.
  destruct (decide _) as [[Hloop Hgate]|Hno]; open_body d.
  - rewrite Hloop, Hgate. simpl. by perform_call w.
  - destruct (str_in remote x_loop); [done|].
    destruct (delete_gate actions); [by destruct Hno | done].
Qed.

Lemma post_receive_body_world req alert origin x_loop :
  body_world_ok client (post_receive_body client req alert origin x_loop).
Proof.
  intros d w. open_body d. by skipped_or_called w.
Qed.

Lemma take_action_body_world req alert act text origin x_loop :
  body_world_ok client (take_action_body client req alert act text origin x_loop).
Proof. intros d w. open_body d. by skipped_or_called w. Qed.

Lemma delete_body_world req alert origin x_loop :
  body_world_ok client (delete_body client req alert origin x_loop).
Proof. intros d w. open_body d. by skipped_or_called w. Qed.

Lemma post_receive_body_warnings req alert origin x_loop d w :
  warnings (trace (post_receive_body client req alert origin x_loop d w))
  = (λ f, "Failed to forward alert to " +:+ endpoint f.1 +:+ " - " +:+ f.2)
      <$> failures client w (calls (trace (post_receive_body client req alert origin
                                             x_loop d w))).
Proof. open_body d. by skipped_or_called w. Qed.

Lemma take_action_body_warnings req alert act text origin x_loop d w :
  warnings (trace (take_action_body client req alert act text origin x_loop d w))
  = (λ f, "Failed to forward action to " +:+ endpoint f.1 +:+ " - " +:+ f.2)
      <$> failures client w (calls (trace (take_action_body client req alert act text
                                             origin x_loop d w))).
Proof. open_body d. by skipped_or_called w. Qed.

Lemma delete_body_warnings req alert origin x_loop d w :
  warnings (trace (delete_body client req alert origin x_loop d w))
  = (λ f, "Failed to forward delete to " +:+ endpoint f.1 +:+ " - " +:+ f.2)
      <$> failures client w (calls (trace (delete_body client req alert origin
                                             x_loop d w))).
Proof. open_body d. by skipped_or_called w. Qed.

End Body_facts.

Section Hook_facts.

Context {World : Type}.
Variable client : World → RemoteCall → World * Reply.
Variable absolute_url : Request → string.

Lemma post_receive_calls_exact dests req alert w :
  calls (trace (post_receive client absolute_url dests req alert w))
  = (λ d, mkCall (remote_of d) (auth_of d)
            {[ X_LOOP_HEADER := append_to_header req (absolute_url req) ]}
            (send_alert (get_body alert)))
      <$> filter (forwards_to (headers_get_default req X_LOOP_HEADER "") post_receive_gate)
            dests.
Proof.
  rewrite post_receive_run. unfold trace at 1. simpl.
  rewrite calls_app. simpl. rewrite app_nil_r.
  apply loop_calls_exact; [apply post_receive_body_returns|].
  apply post_receive_body_calls_exact.
Qed.

Lemma take_action_calls_exact dests req alert act text w :
  str_in (absolute_url req) (headers_get_default req X_LOOP_HEADER "") = false →
  calls (trace (take_action client absolute_url dests req alert act text w))
  = (λ d, mkCall (remote_of d) (auth_of d)
            {[ X_LOOP_HEADER := append_to_header req (absolute_url req) ]}
            (action (alert_id alert) act text))
      <$> filter (forwards_to (headers_get_default req X_LOOP_HEADER "")
                    (take_action_gate act)) dests.
Proof.
  intros Hguard. rewrite take_action_run by done. unfold trace at 1. simpl.
  rewrite calls_app. simpl. rewrite app_nil_r.
  apply loop_calls_exact; [apply take_action_body_returns|].
  apply take_action_body_calls_exact.
Qed.

Lemma delete_calls_exact dests req alert w :
  str_in (absolute_url req) (headers_get_default req X_LOOP_HEADER "") = false →
  calls (trace (delete client absolute_url dests req alert w))
  = (λ d, mkCall (remote_of d) (auth_of d)
            {[ X_LOOP_HEADER := append_to_header req (absolute_url req) ]}
            (delete_alert (alert_id alert)))
      <$> filter (forwards_to (headers_get_default req X_LOOP_HEADER "") delete_gate) dests.
Proof.
  intros Hguard. rewrite delete_run by done. unfold trace at 1. simpl.
  rewrite calls_app. simpl. rewrite app_nil_r.
  apply loop_calls_exact; [apply delete_body_returns|].
  apply delete_body_calls_exact.
Qed.



End Hook_facts.

(** X4. The post-receive hook sends, in table order, exactly one
    [send_alert] of the alert's body to every destination that is neither
    found in the loop header nor refused by the gate, each with that
    destination's credentials and with the inbound loop header extended by
    this node's origin; what the peers answer changes none of it. *)
Theorem post_receive_sends {World} (client : World → RemoteCall → World * Reply)
    (absolute_url : Request → string) (dests : list Destination) (req : Request)
    (alert : Alert) (w : World) :
  calls (trace (post_receive client absolute_url dests req alert w))
  = (λ d, mkCall (remote_of d) (auth_of d)
            {[ X_LOOP_HEADER := append_to_header req (absolute_url req) ]}
            (send_alert (get_body alert)))
      <$> filter (forwards_to (headers_get_default req X_LOOP_HEADER "") post_receive_gate)
            dests.
Proof. apply post_receive_calls_exact. Qed.

(** X5. Once its guard passes, the action hook sends, in table order,
    exactly one [action] call with the alert id, the action name and the
    text to every destination that is neither found in the loop header nor
    refused by the action gate, with that destination's credentials and
    the extended loop header. *)
Theorem take_action_sends {World} (client : World → RemoteCall → World * Reply)
    (absolute_url : Request → string) (dests : list Destination) (req : Request)
    (alert : Alert) (act text : string) (w : World) :
  str_in (absolute_url req) (headers_get_default req X_LOOP_HEADER "") = false →
  calls (trace (take_action client absolute_url dests req alert act text w))
  = (λ d, mkCall (remote_of d) (auth_of d)
            {[ X_LOOP_HEADER := append_to_header req (absolute_url req) ]}
            (action (alert_id alert) act text))
      <$> filter (forwards_to (headers_get_default req X_LOOP_HEADER "")
                    (take_action_gate act)) dests.
Proof. apply take_action_calls_exact. Qed.

Lemma take_action_sends_witness :
  calls (trace (take_action b_is_down this_node three_peers
                  (request_with_loop "http://x,http://a") an_alert "ack" "note" 0))
  = [mkCall "http://b" ∅ {[ X_LOOP_HEADER := "http://x,http://a,http://me" ]}
       (action "a1" "ack" "note");
     mkCall "http://c" ∅ {[ X_LOOP_HEADER := "http://x,http://a,http://me" ]}
       (action "a1" "ack" "note")].
Proof.
  rewrite (take_action_sends b_is_down this_node three_peers
             (request_with_loop "http://x,http://a") an_alert "ack" "note" 0);
    reflexivity.
Defined.

(** X6. Once its guard passes, the delete hook sends, in table order,
    exactly one [delete_alert] of the alert id to every destination that
    is neither found in the loop header nor refused by the delete gate,
    with that destination's credentials and the extended loop header. *)
Theorem delete_sends {World} (client : World → RemoteCall → World * Reply)
    (absolute_url : Request → string) (dests : list Destination) (req : Request)
    (alert : Alert) (w : World) :
  str_in (absolute_url req) (headers_get_default req X_LOOP_HEADER "") = false →
  calls (trace (delete client absolute_url dests req alert w))
  = (λ d, mkCall (remote_of d) (auth_of d)
            {[ X_LOOP_HEADER := append_to_header req (absolute_url req) ]}
            (delete_alert (alert_id alert)))
      <$> filter (forwards_to (headers_get_default req X_LOOP_HEADER "") delete_gate) dests.
Proof. apply delete_calls_exact. Qed.

Lemma delete_sends_witness :
  calls (trace (delete unreachable this_node two_peers request_without_loop an_alert 0))
  = [mkCall "http://a" ∅ {[ X_LOOP_HEADER := "http://me" ]} (delete_alert "a1");
     mkCall "http://b" ∅ {[ X_LOOP_HEADER := "http://me" ]} (delete_alert "a1")].
Proof.
  rewrite (delete_sends unreachable this_node two_peers request_without_loop an_alert 0);
    reflexivity.
Defined.

(** X8. Every failed remote call is logged exactly once and nothing else
    is logged: the warnings of a hook are, in order, one line naming the
    endpoint and the error for each recorded call that raised. *)
Theorem warnings_are_the_failures {World} (client : World → RemoteCall → World * Reply)
    (absolute_url : Request → string) (dests : list Destination) (req : Request)
    (alert : Alert) (act text : string) (w : World) :
  warnings (trace (post_receive client absolute_url dests req alert w))
  = (λ f, "Failed to forward alert to " +:+ endpoint f.1 +:+ " - " +:+ f.2)
      <$> failures client w
            (calls (trace (post_receive client absolute_url dests req alert w)))
  ∧ warnings (trace (take_action client absolute_url dests req alert act text w))
    = (λ f, "Failed to forward action to " +:+ endpoint f.1 +:+ " - " +:+ f.2)
        <$> failures client w
              (calls (trace (take_action client absolute_url dests req alert act text w)))
  ∧ warnings (trace (delete client absolute_url dests req alert w))
    = (λ f, "Failed to forward delete to " +:+ endpoint f.1 +:+ " - " +:+ f.2)
        <$> failures client w
              (calls (trace (delete client absolute_url dests req alert w))).
Proof.
  split; [|split].
  - rewrite post_receive_run. unfold trace at 1 3. simpl.
    rewrite warnings_app, calls_app. simpl. rewrite !app_nil_r.
    apply loop_warnings;
      [apply post_receive_body_returns | apply post_receive_body_world
      | apply post_receive_body_warnings].
  - destruct (str_in (absolute_url req) (headers_get_default req X_LOOP_HEADER ""))
      eqn:Hguard.
    + by rewrite take_action_loop.
    + rewrite take_action_run by done. unfold trace at 1 3. simpl.
      rewrite warnings_app, calls_app. simpl. rewrite !app_nil_r.
      apply loop_warnings;
        [apply take_action_body_returns | apply take_action_body_world
        | apply take_action_body_warnings].
  - destruct (str_in (absolute_url req) (headers_get_default req X_LOOP_HEADER ""))
      eqn:Hguard.
    + by rewrite delete_loop.
    + rewrite delete_run by done. unfold trace at 1 3. simpl.
      rewrite warnings_app, calls_app. simpl. rewrite !app_nil_r.
      apply loop_warnings;
        [apply delete_body_returns | apply delete_body_world
        | apply delete_body_warnings].
Qed.

(** X9. The three loop guards agree: on one request the action hook
    returns the alert, and the delete hook returns [True], exactly when the
    pre-receive hook lets the alert through. *)
Theorem guards_agree {World} (client : World → RemoteCall → World * Reply)
    (absolute_url : Request → string) (dests : list Destination) (req : Request)
    (alert : Alert) (act text : string) (w : World) :
  (value (pre_receive absolute_url req alert w) = Returned alert
   ↔ value (take_action client absolute_url dests req alert act text w) = Returned alert)
  ∧ (value (pre_receive absolute_url req alert w) = Returned alert
     ↔ value (delete client absolute_url dests req alert w) = Returned true).
Proof.
  rewrite pre_receive_run.
  destruct (str_in (absolute_url req) (headers_get_default req X_LOOP_HEADER ""))
    eqn:Hguard.
  - rewrite take_action_loop, delete_loop by done. by split; split.
  - rewrite take_action_run, delete_run by done. by split; split.
Qed.

(** ** Rings of peers *)





(** ** Relations between the hooks *)

(** X12. A delete is forwarded to the same destinations as an action named
    [delete]: on one request and table the delete hook and the action hook
    run with action [delete] call the same endpoints in the same order. *)
Theorem delete_forwards_like_action_delete {World}
    (client : World → RemoteCall → World * Reply)
    (absolute_url : Request → string) (dests : list Destination) (req : Request)
    (alert : Alert) (text : string) (w : World) :
  endpoint <$> calls (trace (delete client absolute_url dests req alert w))
  = endpoint <$> calls (trace (take_action client absolute_url dests req alert "delete"
                                 text w)).
Proof.
  destruct (str_in (absolute_url req) (headers_get_default req X_LOOP_HEADER ""))
    eqn:Hguard.
  - by rewrite take_action_loop, delete_loop.
  - by rewrite take_action_calls, delete_calls.
Qed.

(** X13. Granting a destination more operations never takes a permission
    away: every gate that passes on a list of operations passes on every
    list that contains them. *)
Theorem gates_are_monotone (act : string) (actions actions' : list string) :
  actions ⊆ actions' →
  (post_receive_gate actions = true → post_receive_gate actions' = true)
  ∧ (take_action_gate act actions = true → take_action_gate act actions' = true)
  ∧ (delete_gate actions = true → delete_gate actions' = true).
Proof.
  intros Hsub.
  destruct (gate_table act actions) as (Hfwd & Haction & Hdelete).
  destruct (gate_table act actions') as (Hfwd' & Haction' & Hdelete').
  rewrite Hfwd, Haction, Hdelete, Hfwd', Haction', Hdelete'.
  pose proof (Hsub "*"). pose proof (Hsub "fwd"). pose proof (Hsub "actions").
  pose proof (Hsub "delete"). pose proof (Hsub act). tauto.
Qed.

Lemma gates_are_monotone_witness :
  (post_receive_gate ["fwd"] = true → post_receive_gate ["ack"; "fwd"; "delete"] = true)
  ∧ (take_action_gate "ack" ["fwd"] = true
     → take_action_gate "ack" ["ack"; "fwd"; "delete"] = true)
  ∧ (delete_gate ["fwd"] = true → delete_gate ["ack"; "fwd"; "delete"] = true).
Proof.
  apply (gates_are_monotone "ack" ["fwd"] ["ack"; "fwd"; "delete"]).
  intros x ->%list_elem_of_singleton. apply list_elem_of_further, list_elem_of_here.
Defined.

(** ** What the hooks read of a request *)

Lemma for_each_ext {World A} (l : list A) (body1 body2 : A → M World unit) w :
  (∀ x w', body1 x w' = body2 x w') →
  for_each l body1 w = for_each l body2 w.
Proof.
  intros Hbody. revert w. induction l as [|x l IH]; intros w; [done|].
  simpl. unfold mbind, M_bind. rewrite Hbody.
  destruct (body2 x w) as [[[[]|e] w1] t1]; [|done]. by rewrite IH.
Qed.

Lemma append_to_header_view (req1 req2 : Request) (origin : string) :
  headers_get_default req1 X_LOOP_HEADER "" = headers_get_default req2 X_LOOP_HEADER "" →
  append_to_header req1 origin = append_to_header req2 origin.
Proof.
  unfold headers_get_default, append_to_header, headers_get.
  destruct (headers req1 !! X_LOOP_HEADER) as [x1|],
           (headers req2 !! X_LOOP_HEADER) as [x2|]; simpl.
  - by intros ->.
  - by intros ->.
  - by intros <-.
  - done.
Qed.

(** X14. The hooks read a request only through its loop header, with an
    absent header read as the empty string, its environ and its origin:
    two requests that agree on these three give identical runs of all four
    hooks.  In particular an empty loop header behaves as an absent one, and
    no other header matters. *)
Theorem hooks_read_header_environ_origin {World}
    (client : World → RemoteCall → World * Reply)
    (absolute_url : Request → string) (dests : list Destination) (req1 req2 : Request)
    (alert : Alert) (act text : string) (w : World) :
  headers_get_default req1 X_LOOP_HEADER "" = headers_get_default req2 X_LOOP_HEADER "" →
  environ req1 = environ req2 →
  absolute_url req1 = absolute_url req2 →
  pre_receive absolute_url req1 alert w = pre_receive absolute_url req2 alert w
  ∧ post_receive client absolute_url dests req1 alert w
    = post_receive client absolute_url dests req2 alert w
  ∧ take_action client absolute_url dests req1 alert act text w
    = take_action client absolute_url dests req2 alert act text w
  ∧ delete client absolute_url dests req1 alert w
    = delete client absolute_url dests req2 alert w.
Proof.
  intros Hheader Henviron Horigin.
  pose proof (append_to_header_view req1 req2 (absolute_url req2) Hheader) as Happend.
  split; [|split; [|split]].
  - by rewrite !pre_receive_run, Hheader, Horigin.
  - unfold post_receive, http_origin. rewrite Hheader, Horigin.
    unfold mbind, M_bind at 1 3. simpl. unfold mbind, M_bind at 1 3.
    rewrite (for_each_ext dests _
               (post_receive_body client req2 alert (absolute_url req2)
                  (headers_get_default req2 X_LOOP_HEADER ""))); [done|].
    intros [[remote auth] actions] w'. unfold post_receive_body. by rewrite Happend.
  - unfold take_action, http_origin. rewrite Hheader, Horigin.
    unfold mbind, M_bind at 1 3. simpl.
    destruct (str_in _ _); [done|].
    unfold mbind, M_bind at 1 3. simpl. unfold mbind, M_bind at 1 3.
    rewrite (for_each_ext dests _
               (take_action_body client req2 alert act text (absolute_url req2)
                  (headers_get_default req2 X_LOOP_HEADER ""))); [done|].
    intros [[remote auth] actions] w'. unfold take_action_body. by rewrite Happend.
  - unfold delete, http_origin. rewrite Hheader, Horigin, Henviron.
    unfold mbind, M_bind at 1 3. simpl. unfold mbind, M_bind at 1 3. simpl.
    destruct (str_in _ _); [done|].
    unfold mbind, M_bind at 1 3. simpl. unfold mbind, M_bind at 1 3.
    rewrite (for_each_ext dests _
               (delete_body client req2 alert (absolute_url req2)
                  (headers_get_default req2 X_LOOP_HEADER ""))); [done|].
    intros [[remote auth] actions] w'. unfold delete_body. by rewrite Happend.
Qed.

Lemma hooks_read_header_environ_origin_witness :
  post_receive reachable this_node two_peers (request_with_loop "") an_alert 0
  = post_receive reachable this_node two_peers
      (mkRequest {[ "Host" := "alerta.example" ]} "{}") an_alert 0.
Proof.
  destruct (hooks_read_header_environ_origin reachable this_node two_peers
              (request_with_loop "") (mkRequest {[ "Host" := "alerta.example" ]} "{}")
              an_alert "ack" "" 0) as (_ & Hpost & _); [reflexivity..|].
  exact Hpost.
Defined.
